(** * Preprocessing of snapshot data (opinf.pre) and the Euler lifting maps
    of docs/source/tutorials/preprocessing.ipynb.

    Numbers are real numbers: the code works with float64 arrays, and the
    development reasons about the exact-arithmetic behaviour of the same
    formulas.  A vector is a [list R]; a snapshot matrix is a [list] of
    rows (state components), each row a [list R] of time samples.  Note that
    division in [R] is total ([x / 0 = 0]) where numpy produces [inf]/[nan]. *)

From Stdlib Require Import Reals Lra List Bool Arith Lia.
From Stdlib Require String.
Import ListNotations.
Open Scope R_scope.

(** ** Elementwise array helpers (numpy broadcasting on equal shapes) *)

Fixpoint map2 {A B C : Type} (f : A -> B -> C) (l1 : list A) (l2 : list B)
  : list C :=
  match l1, l2 with
  | x :: t1, y :: t2 => f x y :: map2 f t1 t2
  | _, _ => []
  end.

Fixpoint sum (v : list R) : R :=
  match v with
  | [] => 0
  | x :: t => x + sum t
  end.

(** [np.mean] of a vector. *)
Definition mean (v : list R) : R := sum v / INR (length v).

(** ** The lifting maps of the tutorial (cell "Lifting", lines 91-113) *)
Module Euler.

(** [np.split(state, 3)]: three equal consecutive pieces; numpy raises when
    the length is not divisible by 3 ([None]). *)
Definition split3 (v : list R) : option (list R * list R * list R) :=
  let m := (length v / 3)%nat in
  if (length v mod 3 =? 0)%nat
  then Some (firstn m v, firstn m (skipn m v), skipn (m + m) v)
  else None.

(** [lift(state, gamma)]: [rho, rho*u, rho*e] -> [u, p, 1/rho]. *)
Definition lift (state : list R) (gamma : R) : option (list R) :=
  match split3 state with
  | None => None
  | Some (rho, rho_u, rho_e) =>
      let u := map2 Rdiv rho_u rho in
      let p := map (fun y => (gamma - 1) * y)
                 (map2 Rminus rho_e
                    (map2 Rmult (map (fun r => 0.5 * r) rho)
                       (map (fun x => x ^ 2) u))) in
      let zeta := map (fun r => 1 / r) rho in
      Some (u ++ p ++ zeta)
  end.

(** [unlift(upzeta, gamma)]: [u, p, 1/rho] -> [rho, rho*u, rho*e]. *)
Definition unlift (upzeta : list R) (gamma : R) : option (list R) :=
  match split3 upzeta with
  | None => None
  | Some (u, p, zeta) =>
      let rho := map (fun z => 1 / z) zeta in
      let rho_u := map2 Rmult rho u in
      let rho_e := map2 Rplus (map (fun q => q / (gamma - 1)) p)
                     (map2 Rmult (map (fun r => 0.5 * r) rho)
                        (map (fun x => x ^ 2) u)) in
      Some (rho ++ rho_u ++ rho_e)
  end.

(** [unlift(lift(state, gamma), gamma)]. *)
Definition unlift_lift (state : list R) (gamma : R) : option (list R) :=
  match lift state gamma with
  | Some upzeta => unlift upzeta gamma
  | None => None
  end.

End Euler.

(** ** The snapshot transformation engine [opinf.pre]

    The module [opinf.pre] itself is not part of this source tree (only the
    tutorial that calls it is), so the definitions below are modelled from
    its specification: each carries a doc comment saying so. *)
Module Pre.

(** Modelled from the spec: the error taxonomy of section 7 (shape, state,
    configuration and domain errors), plus the tag that a multi-variable
    transformer attaches to the error of one of its blocks. *)
Inductive error : Type :=
  | ShapeError
  | StateError
  | ConfigError
  | DomainError
  | BlockError (index : nat) (e : error).

Inductive result (A : Type) : Type :=
  | Ok (a : A)
  | Err (e : error).
Arguments Ok {A} a.
Arguments Err {A} e.

Definition bind {A B : Type} (r : result A) (f : A -> result B) : result B :=
  match r with
  | Ok a => f a
  | Err e => Err e
  end.

Notation "x <- r ;; k" := (bind r (fun x => k))
  (at level 61, r at next level, right associativity).

Definition Vec := list R.
Definition Mat := list (list R).

(** Modelled from the spec: "validates S is a 2-D numeric matrix".  A valid
    snapshot matrix has at least one row, at least one column, and all its
    rows of the same length. *)
Definition valid_snapshots (S : Mat) : bool :=
  match S with
  | [] => false
  | r :: rs => negb (length r =? 0)%nat
               && forallb (fun r' => (length r' =? length r)%nat) rs
  end.

(** Modelled from the spec (4.1): [shift(S, reference=None)].  The omitted
    reference is the mean across columns, one value per row; a reference of
    another length than the number of rows is a dimension error. *)
Definition shift (S : Mat) (reference : option Vec) : result (Mat * Vec) :=
  if negb (valid_snapshots S) then Err ShapeError else
  let ref := match reference with
             | None => map mean S
             | Some r => r
             end in
  if (length ref =? length S)%nat
  then Ok (map2 (fun row r => map (fun x => x - r) row) S ref, ref)
  else Err ShapeError.

(** Modelled from the spec (4.1): [unshift(Q, reference) = Q + reference]. *)
Definition unshift (Q : Mat) (reference : Vec) : result Mat :=
  if (length reference =? length Q)%nat
  then Ok (map2 (fun row r => map (fun x => x + r) row) Q reference)
  else Err ShapeError.

(** Modelled from the spec (4.2): the scaling modes, one constructor each. *)
Inductive Scaling : Type := Standard | MinMax | MaxAbs | MaxAbsSym.

(** Modelled from the spec (3, 4.2): a global pair of scalars, or one pair
    of length-n vectors when the statistics are taken per row. *)
Inductive ScaleParams : Type :=
  | Global (scale1 scale2 : R)
  | ByRow (scale1 scale2 : Vec).

(** Smallest and largest entry of a nonempty vector ([np.min], [np.max]);
    numpy raises on an empty array. *)
Definition vmin (v : Vec) : option R :=
  match v with
  | [] => None
  | x :: t => Some (fold_right Rmin x t)
  end.

Definition vmax (v : Vec) : option R :=
  match v with
  | [] => None
  | x :: t => Some (fold_right Rmax x t)
  end.

(** [np.std] (population standard deviation, ddof = 0). *)
Definition std (v : Vec) : R :=
  let mu := mean v in sqrt (mean (map (fun x => (x - mu) ^ 2) v)).

(** Modelled from the spec (4.2, table): the pair [(scale1, scale2)] of one
    mode computed over a vector of entries; [target_range] is required for
    [minmax] and ignored otherwise.  A degenerate divisor ([scale1 = 0]:
    zero standard deviation, zero largest magnitude, constant data or an
    empty target interval under [minmax]) is a domain error, as section 7
    chooses. *)
Definition scale_stats (v : Vec) (mode : Scaling)
    (target_range : option (R * R)) : result (R * R) :=
  match vmin v, vmax v with
  | Some mn, Some mx =>
      let pair :=
        match mode, target_range with
        | Standard, _ => Ok (std v, mean v)
        | MinMax, Some (a, b) =>
            let s1 := (mx - mn) / (b - a) in Ok (s1, mn - a * s1)
        | MinMax, None => Err ConfigError
        | MaxAbs, _ | MaxAbsSym, _ =>
            (* [maxabssym]: the symmetry of the data is not checked; the
               spec leaves that case open and the model proceeds. *)
            Ok (Rmax (Rabs mn) (Rabs mx), 0)
        end in
      p <- pair ;;
      if Req_dec_T (fst p) 0 then Err DomainError else Ok p
  | _, _ => Err ShapeError
  end.

(** Collect the per-row results into one result. *)
Fixpoint all_ok {A : Type} (l : list (result A)) : result (list A) :=
  match l with
  | [] => Ok []
  | r :: t => a <- r ;; rest <- all_ok t ;; Ok (a :: rest)
  end.

(** Modelled from the spec (4.2): learn the scale parameters of [S],
    globally or per row. *)
Definition scale_fit (S : Mat) (mode : Scaling)
    (target_range : option (R * R)) (byrow : bool) : result ScaleParams :=
  if negb (valid_snapshots S) then Err ShapeError else
  if byrow then
    ps <- all_ok (map (fun row => scale_stats row mode target_range) S) ;;
    Ok (ByRow (map fst ps) (map snd ps))
  else
    p <- scale_stats (concat S) mode target_range ;;
    Ok (Global (fst p) (snd p)).

(** Modelled from the spec (4.2): [Q = (S - scale2) / scale1]. *)
Definition scale_apply (S : Mat) (p : ScaleParams) : result Mat :=
  match p with
  | Global s1 s2 => Ok (map (map (fun x => (x - s2) / s1)) S)
  | ByRow s1 s2 =>
      if (length s1 =? length S)%nat && (length s2 =? length S)%nat
      then Ok (map2 (fun row '(a, b) => map (fun x => (x - b) / a) row)
                 S (combine s1 s2))
      else Err ShapeError
  end.

(** Modelled from the spec (4.2): [unscale]: [S = Q * scale1 + scale2]. *)
Definition unscale (Q : Mat) (p : ScaleParams) : result Mat :=
  match p with
  | Global s1 s2 => Ok (map (map (fun x => x * s1 + s2)) Q)
  | ByRow s1 s2 =>
      if (length s1 =? length Q)%nat && (length s2 =? length Q)%nat
      then Ok (map2 (fun row '(a, b) => map (fun x => x * a + b) row)
                 Q (combine s1 s2))
      else Err ShapeError
  end.

(** Modelled from the spec (4.2, 6): [scale(S, target_range, byrow)]
    returns the scaled matrix with the learned parameters. *)
Definition scale (S : Mat) (mode : Scaling) (target_range : option (R * R))
    (byrow : bool) : result (Mat * ScaleParams) :=
  p <- scale_fit S mode target_range byrow ;;
  Q <- scale_apply S p ;;
  Ok (Q, p).


(** Modelled from the spec (4.3, 6): the settings of a
    [SnapshotTransformer(center, scaling, byrow)]; [target_range] is the
    interval used by [minmax]. *)
Record StConfig : Type := mkStConfig {
  center : bool;
  scaling : option Scaling;
  byrow : bool;
  target_range : option (R * R)
}.

(** Modelled from the spec (3): the transformer state.  [n] is the row
    count seen at fit time. *)
Record Transformer : Type := mkTransformer {
  config : StConfig;
  fitted : bool;
  n : nat;
  reference : option Vec;
  scale_params : option ScaleParams
}.

(** Modelled from the spec (3): a transformer is constructed unfitted. *)
Definition st_new (c : StConfig) : Transformer :=
  mkTransformer c false 0 None None.

(** Modelled from the spec (4.3): the parameters learned by [fit]: shift
    first (if [center]), then the scale statistics of the shifted data. *)
Definition fit_params (c : StConfig) (S : Mat)
    : result (option Vec * option ScaleParams) :=
  if negb (valid_snapshots S) then Err ShapeError else
  sr <- (if center c
         then q <- shift S None ;; Ok (fst q, Some (snd q))
         else Ok (S, None)) ;;
  p <- match scaling c with
       | Some m => q <- scale_fit (fst sr) m (target_range c) (byrow c) ;;
                   Ok (Some q)
       | None => Ok None
       end ;;
  Ok (snd sr, p).

(** Modelled from the spec (4.3, 7): [fit] mutates the transformer; the
    first component is the object after the call, the second what the call
    returns or raises.  Parameters are committed only when all of them were
    computed. *)
Definition st_fit (t : Transformer) (S : Mat) : Transformer * result unit :=
  match fit_params (config t) S with
  | Ok (ref, p) => (mkTransformer (config t) true (length S) ref p, Ok tt)
  | Err e => (t, Err e)
  end.

(** Modelled from the spec (4.3): [transform]: state check, dimension
    check, stored shift, then stored scale. *)
Definition st_transform (t : Transformer) (S : Mat) : result Mat :=
  if negb (fitted t) then Err StateError else
  if negb (length S =? n t)%nat then Err ShapeError else
  if negb (valid_snapshots S) then Err ShapeError else
  S1 <- match reference t with
        | Some r => q <- shift S (Some r) ;; Ok (fst q)
        | None => Ok S
        end ;;
  match scale_params t with
  | Some p => scale_apply S1 p
  | None => Ok S1
  end.

(** Modelled from the spec (4.3): [inverse_transform]: state check,
    dimension check, inverse scale, then inverse shift. *)
Definition st_inverse_transform (t : Transformer) (Q : Mat) : result Mat :=
  if negb (fitted t) then Err StateError else
  if negb (length Q =? n t)%nat then Err ShapeError else
  if negb (valid_snapshots Q) then Err ShapeError else
  Q1 <- match scale_params t with
        | Some p => unscale Q p
        | None => Ok Q
        end ;;
  match reference t with
  | Some r => unshift Q1 r
  | None => Ok Q1
  end.

(** Modelled from the spec (3, 4.3): [fit_transform] is [fit] followed by
    [transform] with the freshly learned parameters. *)
Definition st_fit_transform (t : Transformer) (S : Mat)
    : Transformer * result Mat :=
  let (t', o) := st_fit t S in
  match o with
  | Ok _ => (t', st_transform t' S)
  | Err e => (t', Err e)
  end.

(** A sequence of [fit] calls on one object, with their outcomes. *)
Fixpoint fit_history (t : Transformer) (Ss : list Mat)
    : Transformer * list (result unit) :=
  match Ss with
  | [] => (t, [])
  | S0 :: Ss' =>
      let (t1, o) := st_fit t S0 in
      let (t2, os) := fit_history t1 Ss' in
      (t2, o :: os)
  end.

Definition is_err {A : Type} (r : result A) : bool :=
  match r with Ok _ => false | Err _ => true end.

(** The invariant of learned scale parameters: nonzero divisors, and for
    per-row parameters one pair per row. *)
Definition params_ok (p : ScaleParams) (rows : nat) : Prop :=
  match p with
  | Global s1 _ => s1 <> 0
  | ByRow s1 s2 =>
      Forall (fun a => a <> 0) s1 /\ length s1 = rows /\ length s2 = rows
  end.

(** ** SnapshotTransformerMulti *)

(** Modelled from the spec (4.4): [center], [scaling], [byrow] may be one
    value for all blocks or a sequence with one value per block. *)
Inductive setting (A : Type) : Type :=
  | Shared (a : A)
  | PerBlock (l : list A).
Arguments Shared {A} a.
Arguments PerBlock {A} l.

Definition expand {A : Type} (nv : nat) (s : setting A) : result (list A) :=
  match s with
  | Shared a => Ok (repeat a nv)
  | PerBlock l => if (length l =? nv)%nat then Ok l else Err ConfigError
  end.

(** Modelled from the spec (3, 4.4): the multi-transformer state: one
    transformer per block and the block boundaries persisted by [fit]. *)
Record MultiTransformer : Type := mkMulti {
  num_variables : nat;
  variable_sizes : option (list nat);
  variable_names : option (list String.string);
  transformers : list Transformer;
  m_fitted : bool;
  block_sizes : list nat
}.

(** Modelled from the spec (4.4): the constructor and its validation. *)
Definition multi_new (nv : nat) (sizes : option (list nat))
    (center_s : setting bool) (scaling_s : setting (option Scaling))
    (byrow_s : setting bool) (range_s : setting (option (R * R)))
    (names : option (list String.string)) : result MultiTransformer :=
  if (nv =? 0)%nat then Err ConfigError else
  _ <- match sizes with
       | Some s => if (length s =? nv)%nat
                      && forallb (fun k => negb (k =? 0)%nat) s
                   then Ok tt else Err ShapeError
       | None => Ok tt
       end ;;
  _ <- match names with
       | Some l => if (length l =? nv)%nat then Ok tt else Err ShapeError
       | None => Ok tt
       end ;;
  cs <- expand nv center_s ;;
  ss <- expand nv scaling_s ;;
  bs <- expand nv byrow_s ;;
  rs <- expand nv range_s ;;
  let cfgs := map (fun '(c, s, b, r) => mkStConfig c s b r)
                (combine (combine (combine cs ss) bs) rs) in
  Ok (mkMulti nv sizes names (map st_new cfgs) false []).

Definition list_sum (l : list nat) : nat := fold_right Nat.add 0%nat l.

(** Modelled from the spec (4.4): block sizes, explicit or an equal split
    that must be exact. *)
Definition compute_sizes (m : MultiTransformer) (rows : nat)
    : result (list nat) :=
  match variable_sizes m with
  | Some s => if (list_sum s =? rows)%nat then Ok s else Err ShapeError
  | None =>
      if (rows mod num_variables m =? 0)%nat
      then Ok (repeat (rows / num_variables m)%nat (num_variables m))
      else Err ShapeError
  end.

(** Contiguous row-blocks of a stacked matrix. *)
Fixpoint split_rows (sizes : list nat) (S : Mat) : list Mat :=
  match sizes with
  | [] => []
  | k :: ks => firstn k S :: split_rows ks (skipn k S)
  end.

(** Modelled from the spec (4.4): fit one transformer per block; an error
    of block [i] is raised tagged with [i]. *)
Fixpoint fit_blocks (i : nat) (ts : list Transformer) (Bs : list Mat)
    : result (list Transformer) :=
  match ts, Bs with
  | t :: ts', B :: Bs' =>
      match st_fit t B with
      | (t', Ok _) => rest <- fit_blocks (Datatypes.S i) ts' Bs' ;;
                      Ok (t' :: rest)
      | (_, Err e) => Err (BlockError i e)
      end
  | _, _ => Ok []
  end.

(** Apply a per-block operation, tagging errors with the block index. *)
Fixpoint apply_blocks (f : Transformer -> Mat -> result Mat) (i : nat)
    (ts : list Transformer) (Bs : list Mat) : result (list Mat) :=
  match ts, Bs with
  | t :: ts', B :: Bs' =>
      match f t B with
      | Ok Q => rest <- apply_blocks f (Datatypes.S i) ts' Bs' ;; Ok (Q :: rest)
      | Err e => Err (BlockError i e)
      end
  | _, _ => Ok []
  end.

(** Modelled from the spec (4.4): [fit] of the multi-transformer; the state
    is updated only when every block was fitted. *)
Definition multi_fit (m : MultiTransformer) (S : Mat)
    : MultiTransformer * result unit :=
  match (sizes <- compute_sizes m (length S) ;;
         ts <- fit_blocks 0 (transformers m) (split_rows sizes S) ;;
         Ok (sizes, ts)) with
  | Ok (sizes, ts) =>
      (mkMulti (num_variables m) (variable_sizes m) (variable_names m)
         ts true sizes, Ok tt)
  | Err e => (m, Err e)
  end.

(** Modelled from the spec (4.4): re-partition with the persisted block
    boundaries, delegate, and re-stack. *)
Definition multi_apply (f : Transformer -> Mat -> result Mat)
    (m : MultiTransformer) (S : Mat) : result Mat :=
  if negb (m_fitted m) then Err StateError else
  if negb (length S =? list_sum (block_sizes m))%nat then Err ShapeError else
  outs <- apply_blocks f 0 (transformers m) (split_rows (block_sizes m) S) ;;
  Ok (concat outs).

Definition multi_transform := multi_apply st_transform.
Definition multi_inverse_transform := multi_apply st_inverse_transform.

Definition multi_fit_transform (m : MultiTransformer) (S : Mat)
    : MultiTransformer * result Mat :=
  let (m', o) := multi_fit m S in
  match o with
  | Ok _ => (m', multi_transform m' S)
  | Err e => (m', Err e)
  end.

(** ** Arrays owned by the caller *)

(** Modelled from the spec (5): the arrays of a program as a store indexed
    by location, and the store operations the array code performs: reading
    the array at a location, allocating a new array, and overwriting the
    array at a location in place ([A -= ref], [A /= s1], ...).  A program
    over the store returns the store after the call and what the call
    returns or raises; [None] is a dangling location, which Python cannot
    produce. *)
Definition Heap := list Mat.

(** [h[l] = A]: overwrite the array at [l]; nothing happens out of range. *)
Fixpoint set_nth (h : Heap) (l : nat) (A : Mat) : Heap :=
  match h, l with
  | [], _ => []
  | _ :: t, O => A :: t
  | x :: t, S k => x :: set_nth t k A
  end.

Definition HeapM (A : Type) : Type := Heap -> option (Heap * result A).

Definition hret {A : Type} (a : A) : HeapM A := fun h => Some (h, Ok a).

Definition hraise {A : Type} (e : error) : HeapM A := fun h => Some (h, Err e).

Definition hbind {A B : Type} (m : HeapM A) (k : A -> HeapM B) : HeapM B :=
  fun h =>
    match m h with
    | None => None
    | Some (h', Ok a) => k a h'
    | Some (h', Err e) => Some (h', Err e)
    end.

Definition load (l : nat) : HeapM Mat :=
  fun h => match nth_error h l with
           | None => None
           | Some A => Some (h, Ok A)
           end.

Definition alloc (A : Mat) : HeapM nat :=
  fun h => Some (h ++ [A], Ok (length h)).

(** In-place update of the array at [l] by [f]; when [f] raises, the array
    is left as it was. *)
Definition update (l : nat) (f : Mat -> result Mat) : HeapM unit :=
  fun h => match nth_error h l with
           | None => None
           | Some A => match f A with
                       | Ok B => Some (set_nth h l B, Ok tt)
                       | Err e => Some (h, Err e)
                       end
           end.

(** Modelled from the spec (4.3, 5): [transform] on the array at [l]: the
    state and dimension checks, then a working copy of the input, shifted
    in place by the stored reference and scaled in place by the stored
    parameters; the copy's location is returned. *)
Definition transform_at (t : Transformer) (l : nat) : HeapM nat :=
  hbind (load l) (fun A0 =>
  if negb (fitted t) then hraise StateError else
  if negb (length A0 =? n t)%nat then hraise ShapeError else
  if negb (valid_snapshots A0) then hraise ShapeError else
  hbind (alloc A0) (fun q =>
  hbind (match reference t with
         | Some r => update q (fun A => p <- shift A (Some r) ;; Ok (fst p))
         | None => hret tt
         end) (fun _ =>
  hbind (match scale_params t with
         | Some p => update q (fun A => scale_apply A p)
         | None => hret tt
         end) (fun _ =>
  hret q)))).

(** Modelled from the spec (4.3, 5): [inverse_transform] on the array at
    [l]: the same checks, then a working copy unscaled in place and
    unshifted in place. *)
Definition inverse_transform_at (t : Transformer) (l : nat) : HeapM nat :=
  hbind (load l) (fun A0 =>
  if negb (fitted t) then hraise StateError else
  if negb (length A0 =? n t)%nat then hraise ShapeError else
  if negb (valid_snapshots A0) then hraise ShapeError else
  hbind (alloc A0) (fun q =>
  hbind (match scale_params t with
         | Some p => update q (fun A => unscale A p)
         | None => hret tt
         end) (fun _ =>
  hbind (match reference t with
         | Some r => update q (fun A => unshift A r)
         | None => hret tt
         end) (fun _ =>
  hret q)))).

End Pre.

(** * Properties *)

(** ** Array helpers *)

Lemma map2_length {A B C : Type} (f : A -> B -> C) l1 l2 :
  length (map2 f l1 l2) = Nat.min (length l1) (length l2).
Proof.
  revert l2; induction l1 as [|x t IH]; intros [|y t2]; simpl; auto.
Qed.

Lemma firstn_app_exact {A : Type} (a b : list A) :
  firstn (length a) (a ++ b) = a.
Proof.
  rewrite firstn_app, Nat.sub_diag, firstn_O, app_nil_r.
  apply firstn_all.
Qed.

Lemma skipn_app_exact {A : Type} (a b : list A) :
  skipn (length a) (a ++ b) = b.
Proof.
  rewrite skipn_app, Nat.sub_diag, skipn_O, skipn_all. reflexivity.
Qed.

(** ** The Euler lifting maps *)
Module EulerFacts.
Import Euler.

Lemma split3_app (a b c : list R) :
  length b = length a -> length c = length a ->
  split3 (a ++ b ++ c) = Some (a, b, c).
Proof.
  intros Hb Hc. unfold split3.
  rewrite !length_app, Hb, Hc.
  replace (length a + (length a + length a))%nat with (length a * 3)%nat
    by lia.
  rewrite Nat.div_mul, Nat.Div0.mod_mul by lia. simpl.
  rewrite firstn_app_exact, skipn_app_exact.
  rewrite <- Hb at 1. rewrite firstn_app_exact.
  replace (length a + length a)%nat with (length b + length a)%nat by lia.
  rewrite <- skipn_skipn, !skipn_app_exact.
  reflexivity.
Qed.

Lemma split3_spec (state : list R) :
  (length state mod 3 = 0)%nat ->
  let m := (length state / 3)%nat in
  exists rho rho_u rho_e,
    state = rho ++ rho_u ++ rho_e /\ rho = firstn m state /\
    length rho = m /\ length rho_u = m /\ length rho_e = m /\
    split3 state = Some (rho, rho_u, rho_e).
Proof.
  intros Hmod m.
  assert (Hlen : length state = (m * 3)%nat).
  { pose proof (Nat.div_mod (length state) 3) as H. unfold m. lia. }
  exists (firstn m state), (firstn m (skipn m state)), (skipn (m + m) state).
  assert (Ha : length (firstn m state) = m) by (rewrite length_firstn; lia).
  assert (Hb : length (firstn m (skipn m state)) = m)
    by (rewrite length_firstn, length_skipn; lia).
  assert (Hc : length (skipn (m + m) state) = m) by (rewrite length_skipn; lia).
  assert (Heq : state = firstn m state ++ firstn m (skipn m state)
                        ++ skipn (m + m) state).
  { rewrite <- skipn_skipn, firstn_skipn, firstn_skipn. reflexivity. }
  repeat split; auto.
  unfold split3. rewrite Hmod. reflexivity.
Qed.

Lemma inv_inv (rho : list R) :
  Forall (fun r => r <> 0) rho ->
  map (fun z => 1 / z) (map (fun r => 1 / r) rho) = rho.
Proof.
  induction 1 as [|r t Hr _ IH]; simpl; [reflexivity|].
  rewrite IH. f_equal. field. exact Hr.
Qed.

Lemma mult_div (rho rho_u : list R) :
  Forall (fun r => r <> 0) rho -> length rho_u = length rho ->
  map2 Rmult rho (map2 Rdiv rho_u rho) = rho_u.
Proof.
  intros H. revert rho_u.
  induction H as [|r t Hr _ IH]; intros [|y t2] Hl; simpl in *;
    try discriminate; [reflexivity|].
  rewrite IH by lia. f_equal. field. exact Hr.
Qed.

Lemma energy_back (gamma : R) (rho_e X : list R) :
  gamma <> 1 -> length X = length rho_e ->
  map2 Rplus
    (map (fun q => q / (gamma - 1))
       (map (fun y => (gamma - 1) * y) (map2 Rminus rho_e X))) X = rho_e.
Proof.
  intros Hg. revert X.
  induction rho_e as [|e t IH]; intros [|x tx] Hl; simpl in *;
    try discriminate; [reflexivity|].
  rewrite IH by lia. f_equal. field. intro H. apply Hg. lra.
Qed.

End EulerFacts.

Module EulerClaims.
Import Euler EulerFacts.

(** C10 (amended): for a state whose length is divisible by 3, whose
    [rho] block has no zero entry, and for a [gamma] other than 1,
    [unlift(lift(state, gamma), gamma)] is [state] in exact arithmetic. *)
Theorem unlift_lift_roundtrip (state : list R) (gamma : R)
    (Hmod : (length state mod 3 = 0)%nat)
    (Hrho : Forall (fun r => r <> 0) (firstn (length state / 3) state))
    (Hgamma : gamma <> 1) :
  unlift_lift state gamma = Some state.
Proof.
  destruct (split3_spec state Hmod)
    as (rho & rho_u & rho_e & Hst & Hfirst & La & Lb & Lc & Hsplit).
  rewrite <- Hfirst in Hrho.
  set (m := (length state / 3)%nat) in *.
  unfold unlift_lift, lift. rewrite Hsplit.
  set (u := map2 Rdiv rho_u rho).
  set (X := map2 Rmult (map (fun r => 0.5 * r) rho) (map (fun x => x ^ 2) u)).
  assert (Lu : length u = m) by (unfold u; rewrite map2_length; lia).
  assert (LX : length X = m)
    by (unfold X; rewrite map2_length, !length_map; lia).
  unfold unlift. rewrite split3_app.
  2: { rewrite !length_map, map2_length; lia. }
  2: { rewrite !length_map; lia. }
  rewrite inv_inv by exact Hrho. fold X.
  rewrite energy_back by (auto; lia).
  unfold u. rewrite mult_div by (auto; lia).
  rewrite Hst. reflexivity.
Qed.

Lemma unlift_lift_roundtrip_witness :
  ((length [2; 4; 10] mod 3 = 0)%nat /\
   Forall (fun r => r <> 0) (firstn (length [2; 4; 10] / 3) [2; 4; 10]) /\
   1.4 <> 1) /\
  unlift_lift [2; 4; 10] 1.4 = Some [2; 4; 10].
Proof.
  assert (H : (length [2; 4; 10] mod 3 = 0)%nat /\
              Forall (fun r => r <> 0)
                (firstn (length [2; 4; 10] / 3) [2; 4; 10]) /\
              1.4 <> 1).
  { split; [reflexivity|]. split; [simpl; constructor; [lra|constructor]|].
    lra. }
  split; [exact H|].
  destruct H as (H1 & H2 & H3).
  exact (unlift_lift_roundtrip [2; 4; 10] 1.4 H1 H2 H3).
Defined.

(** C10 (counterexample): with [gamma = 1] the pressure is multiplied by
    [gamma - 1 = 0] in [lift] and divided by it in [unlift], so the energy
    block is lost: the state [rho = 1, rho*u = 0, rho*e = 1] does not come
    back (numpy computes [0/0 = nan] there; exact arithmetic [0]). *)
Lemma unlift_lift_gamma_one :
  unlift_lift [1; 0; 1] 1 <> Some [1; 0; 1].
Proof.
  unfold unlift_lift, lift, unlift, split3. simpl.
  intro H. injection H as _ _ He.
  replace (1 - 1) with 0 in He by ring.
  rewrite Rdiv_0_r in He.
  unfold Rdiv in He. rewrite Rinv_1, Rmult_0_l, Rmult_1_l in He. lra.
Qed.

End EulerClaims.

(** ** Shift and scale primitives *)
Module PreFacts.
Import Pre.

Lemma valid_snapshots_lengths (S1 S2 : Mat) :
  map (@length R) S1 = map (@length R) S2 ->
  valid_snapshots S1 = valid_snapshots S2.
Proof.
  destruct S1 as [|r1 t1], S2 as [|r2 t2]; simpl; try discriminate; auto.
  intros H. injection H as Hr Ht. rewrite Hr. f_equal.
  revert t2 Ht; induction t1 as [|x t IH]; intros [|y t'] Ht; simpl in *;
    try discriminate; auto.
  injection Ht as Hx Ht. rewrite Hx, (IH t' Ht). reflexivity.
Qed.

(** Row-wise maps keep the shape of a matrix. *)
Lemma map2_rows_lengths {A : Type} (F : list R -> A -> list R)
    (S : Mat) (xs : list A) :
  (forall row a, length (F row a) = length row) ->
  (length S <= length xs)%nat ->
  map (@length R) (map2 F S xs) = map (@length R) S.
Proof.
  intros HF. revert xs; induction S as [|row t IH]; intros [|a xs] Hl;
    simpl in *; auto; try lia.
  rewrite HF, IH by lia. reflexivity.
Qed.

(** Row-wise maps undone by a row-wise inverse. *)
Lemma map2_rows_inverse {A : Type} (F G : list R -> A -> list R)
    (S : Mat) (xs : list A) :
  (forall row a, In a xs -> G (F row a) a = row) ->
  (length S <= length xs)%nat ->
  map2 G (map2 F S xs) xs = S.
Proof.
  revert xs; induction S as [|row t IH]; intros [|a xs] HFG Hl;
    simpl in *; auto; try lia.
  rewrite HFG by auto. f_equal. apply IH; auto. lia.
Qed.

Lemma map_shift_inverse (r : R) (row : list R) :
  map (fun x => x + r) (map (fun x => x - r) row) = row.
Proof.
  induction row as [|x t IH]; simpl; [reflexivity|].
  rewrite IH. f_equal. ring.
Qed.

Lemma map_scale_inverse (a b : R) (row : list R) :
  a <> 0 ->
  map (fun x => x * a + b) (map (fun x => (x - b) / a) row) = row.
Proof.
  intros Ha. induction row as [|x t IH]; simpl; [reflexivity|].
  rewrite IH. f_equal. field. exact Ha.
Qed.

Lemma shift_some (S : Mat) (r : Vec) :
  valid_snapshots S = true -> length r = length S ->
  shift S (Some r) = Ok (map2 (fun row c => map (fun x => x - c) row) S r, r).
Proof.
  intros Hv Hl. unfold shift. rewrite Hv, Hl, Nat.eqb_refl. reflexivity.
Qed.

Lemma shift_shape (S : Mat) (r : Vec) :
  (length S <= length r)%nat ->
  map (@length R) (map2 (fun row c => map (fun x => x - c) row) S r)
  = map (@length R) S.
Proof.
  apply map2_rows_lengths. intros; apply length_map.
Qed.

Lemma unshift_shift (S : Mat) (r : Vec) :
  length r = length S ->
  unshift (map2 (fun row c => map (fun x => x - c) row) S r) r = Ok S.
Proof.
  intros Hl. unfold unshift. rewrite map2_length, Hl, Nat.min_id, Nat.eqb_refl.
  f_equal. apply map2_rows_inverse; [|lia].
  intros row c _. apply map_shift_inverse.
Qed.

(** Applying learned scale parameters succeeds, keeps the shape, and
    [unscale] undoes it. *)
Lemma scale_roundtrip (S : Mat) (p : ScaleParams) :
  params_ok p (length S) ->
  exists Q, scale_apply S p = Ok Q /\ unscale Q p = Ok S /\
            map (@length R) Q = map (@length R) S.
Proof.
  destruct p as [s1 s2 | s1 s2]; simpl.
  - intros Hs. eexists; split; [reflexivity|]. split.
    + f_equal. rewrite map_map.
      transitivity (map (fun row => row) S); [|apply map_id].
      apply map_ext. intro row. apply map_scale_inverse, Hs.
    + rewrite map_map. apply map_ext. intro; apply length_map.
  - intros (Hnz & L1 & L2). rewrite L1, L2, Nat.eqb_refl. simpl.
    eexists; split; [reflexivity|].
    assert (Lc : length (combine s1 s2) = length S)
      by (rewrite length_combine; lia).
    split.
    + unfold unscale.
      rewrite map2_length, Lc, Nat.min_id, Nat.eqb_refl. simpl.
      f_equal. apply map2_rows_inverse; [|lia].
      intros row [a b] Hin. apply map_scale_inverse.
      apply in_combine_l in Hin. rewrite Forall_forall in Hnz. auto.
    + apply map2_rows_lengths; [|lia].
      intros row [a b]. apply length_map.
Qed.

Lemma all_ok_spec {A : Type} (l : list (result A)) (xs : list A) :
  all_ok l = Ok xs -> Forall2 (fun r x => r = Ok x) l xs.
Proof.
  revert xs; induction l as [|r t IH]; intros xs H; simpl in H.
  - injection H as <-. constructor.
  - destruct r as [a|e]; simpl in H; [|discriminate].
    destruct (all_ok t) as [rest|e] eqn:Ht; simpl in H; [|discriminate].
    injection H as <-. constructor; auto.
Qed.

Lemma Forall2_in_right {A B : Type} (P : A -> B -> Prop) l xs (q : B) :
  Forall2 P l xs -> In q xs -> exists r, In r l /\ P r q.
Proof.
  induction 1 as [|r x l' xs' Hrx _ IH]; simpl; [tauto|].
  intros [<- | Hin]; [eauto|].
  destruct (IH Hin) as (r' & Hr' & HP); eauto.
Qed.

Lemma scale_stats_nonzero (v : Vec) (m : Scaling) (tr : option (R * R))
    (p : R * R) :
  scale_stats v m tr = Ok p -> fst p <> 0.
Proof.
  unfold scale_stats.
  destruct (vmin v), (vmax v); try discriminate.
  destruct (match m, tr with
            | Standard, _ => _ | MinMax, Some _ => _ | MinMax, None => _
            | MaxAbs, _ => _ | MaxAbsSym, _ => _ end) as [q|e];
    simpl; [|discriminate].
  destruct (Req_dec_T (fst q) 0); [discriminate|].
  intros H; injection H as <-; assumption.
Qed.

Lemma scale_fit_ok (S : Mat) (m : Scaling) (tr : option (R * R)) (b : bool)
    (p : ScaleParams) :
  scale_fit S m tr b = Ok p -> params_ok p (length S).
Proof.
  unfold scale_fit. destruct (negb (valid_snapshots S)); [discriminate|].
  destruct b.
  - destruct (all_ok _) as [ps|e] eqn:Hps; simpl; [|discriminate].
    intros H; injection H as <-. simpl.
    apply all_ok_spec in Hps.
    pose proof (Forall2_length Hps) as Hl. rewrite length_map in Hl.
    rewrite !length_map, <- Hl. repeat split; auto.
    rewrite Forall_forall. intros a Ha.
    apply in_map_iff in Ha as (q & <- & Hq).
    destruct (Forall2_in_right _ _ _ _ Hps Hq) as (r & Hr & Hrq).
    apply in_map_iff in Hr as (row & <- & _).
    eapply scale_stats_nonzero. exact Hrq.
  - destruct (scale_stats _ _ _) as [q|e] eqn:Hq; simpl; [|discriminate].
    intros H; injection H as <-. simpl.
    eapply scale_stats_nonzero; exact Hq.
Qed.

Lemma lengths_length (S1 S2 : Mat) :
  map (@length R) S1 = map (@length R) S2 -> length S1 = length S2.
Proof.
  intros H. apply (f_equal (@length nat)) in H. rewrite !length_map in H.
  exact H.
Qed.

Lemma shift_none (S : Mat) :
  valid_snapshots S = true ->
  shift S None = Ok (map2 (fun row c => map (fun x => x - c) row) S
                       (map mean S), map mean S).
Proof.
  intros Hv. unfold shift. rewrite Hv, length_map, Nat.eqb_refl. reflexivity.
Qed.

(** What [fit] learns: a reference only when centering, always the row
    means of the fitting data, and scale parameters with nonzero divisors. *)
Lemma fit_params_spec (c : StConfig) (S : Mat) ref p :
  fit_params c S = Ok (ref, p) ->
  valid_snapshots S = true /\
  ref = (if center c then Some (map mean S) else None) /\
  (forall q, p = Some q -> params_ok q (length S)).
Proof.
  unfold fit_params. destruct (valid_snapshots S) eqn:Hv; [|discriminate].
  simpl. destruct (center c).
  - rewrite shift_none by exact Hv. simpl.
    destruct (scaling c) as [m|]; simpl.
    + destruct (scale_fit _ _ _ _) as [q|e] eqn:Hq; simpl; [|discriminate].
      intros H; injection H as <- <-. repeat split; auto.
      intros q' Hq'; injection Hq' as <-.
      apply scale_fit_ok in Hq. rewrite map2_length, length_map, Nat.min_id
        in Hq. exact Hq.
    + intros H; injection H as <- <-. repeat split; auto. discriminate.
  - destruct (scaling c) as [m|]; simpl.
    + destruct (scale_fit _ _ _ _) as [q|e] eqn:Hq; simpl; [|discriminate].
      intros H; injection H as <- <-. repeat split; auto.
      intros q' Hq'; injection Hq' as <-. eapply scale_fit_ok; exact Hq.
    + intros H; injection H as <- <-. repeat split; auto. discriminate.
Qed.

(** The stored shift of [transform] and the unshift of [inverse_transform]. *)
Lemma shift_step (S : Mat) (ref : option Vec) (center_flag : bool) :
  valid_snapshots S = true ->
  ref = (if center_flag then Some (map mean S) else None) ->
  exists S1,
    (match ref with
     | Some r => q <- shift S (Some r) ;; Ok (fst q)
     | None => Ok S
     end) = Ok S1 /\
    map (@length R) S1 = map (@length R) S /\
    (match ref with Some r => unshift S1 r | None => Ok S1 end) = Ok S.
Proof.
  intros Hv ->. destruct center_flag.
  - rewrite shift_some by (auto; apply length_map). simpl.
    eexists; split; [reflexivity|]. split.
    + apply shift_shape. rewrite length_map. lia.
    + apply unshift_shift, length_map.
  - eexists; split; [reflexivity|]. split; reflexivity.
Qed.

(** The stored scale of [transform] and the unscale of [inverse_transform]. *)
Lemma scale_step (S1 : Mat) (p : option ScaleParams) :
  (forall q, p = Some q -> params_ok q (length S1)) ->
  exists Q,
    (match p with Some q => scale_apply S1 q | None => Ok S1 end) = Ok Q /\
    map (@length R) Q = map (@length R) S1 /\
    (match p with Some q => unscale Q q | None => Ok Q end) = Ok S1.
Proof.
  destruct p as [q|]; intros Hp.
  - destruct (scale_roundtrip S1 q (Hp q eq_refl)) as (Q & H1 & H2 & H3).
    exists Q. auto.
  - exists S1. auto.
Qed.

(** Increasing maps commute with [Rmin] and [Rmax], hence with [vmin] and
    [vmax]. *)
Lemma mono_Rmin (f : R -> R) (x y : R) :
  (forall u v, u <= v -> f u <= f v) -> f (Rmin x y) = Rmin (f x) (f y).
Proof.
  intros Hf. unfold Rmin.
  destruct (Rle_dec x y) as [H1|H1], (Rle_dec (f x) (f y)) as [H2|H2];
    auto.
  - exfalso. apply H2, Hf, H1.
  - apply Rle_antisym; [apply Hf; lra|lra].
Qed.

Lemma mono_Rmax (f : R -> R) (x y : R) :
  (forall u v, u <= v -> f u <= f v) -> f (Rmax x y) = Rmax (f x) (f y).
Proof.
  intros Hf. unfold Rmax.
  destruct (Rle_dec x y) as [H1|H1], (Rle_dec (f x) (f y)) as [H2|H2];
    auto.
  - exfalso. apply H2, Hf, H1.
  - apply Rle_antisym; [lra|apply Hf; lra].
Qed.

Lemma vmin_map (f : R -> R) (v : Vec) :
  (forall u w, u <= w -> f u <= f w) ->
  vmin (map f v) = option_map f (vmin v).
Proof.
  intros Hf. destruct v as [|x t]; simpl; [reflexivity|]. f_equal.
  induction t as [|y t IH]; simpl; [reflexivity|].
  rewrite mono_Rmin, IH by exact Hf. reflexivity.
Qed.

Lemma vmax_map (f : R -> R) (v : Vec) :
  (forall u w, u <= w -> f u <= f w) ->
  vmax (map f v) = option_map f (vmax v).
Proof.
  intros Hf. destruct v as [|x t]; simpl; [reflexivity|]. f_equal.
  induction t as [|y t IH]; simpl; [reflexivity|].
  rewrite mono_Rmax, IH by exact Hf. reflexivity.
Qed.

Lemma affine_mono (s1 s2 : R) :
  0 < s1 -> forall u w, u <= w -> (u - s2) / s1 <= (w - s2) / s1.
Proof.
  intros Hs u w Huw. unfold Rdiv.
  apply Rmult_le_compat_r; [left; apply Rinv_0_lt_compat, Hs|lra].
Qed.

Lemma valid_concat_nonempty (S : Mat) :
  valid_snapshots S = true -> concat S <> [].
Proof.
  destruct S as [|[|x r] t]; simpl; discriminate.
Qed.

(** Row sums under the row-wise maps of [shift] and [scale]. *)
Lemma sum_app (u v : Vec) : sum (u ++ v) = sum u + sum v.
Proof. induction u as [|x t IH]; simpl; [ring|rewrite IH; ring]. Qed.

Lemma sum_map_sub (row : Vec) (c : R) :
  sum (map (fun x => x - c) row) = sum row - INR (length row) * c.
Proof.
  induction row as [|x t IH]; simpl map; simpl sum; [simpl; ring|].
  rewrite IH, length_cons, S_INR. ring.
Qed.

Lemma sum_map_affine (row : Vec) (c s : R) :
  sum (map (fun x => (x - c) / s) row) = (sum row - INR (length row) * c) / s.
Proof.
  induction row as [|x t IH]; simpl map; simpl sum; [simpl; unfold Rdiv; ring|].
  rewrite IH, length_cons, S_INR. unfold Rdiv. ring.
Qed.

Lemma shift_row_sum (row : Vec) : sum (map (fun x => x - mean row) row) = 0.
Proof.
  rewrite sum_map_sub. unfold mean.
  destruct row as [|x t]; [simpl; ring|].
  field. apply not_0_INR. discriminate.
Qed.

Lemma shift_mean_zero_sums (S : Mat) :
  Forall (fun row => sum row = 0)
    (map2 (fun row c => map (fun x => x - c) row) S (map mean S)).
Proof.
  induction S as [|row t IH]; simpl; constructor; auto.
  apply shift_row_sum.
Qed.

Lemma mean_of_zero_sum (row : Vec) : sum row = 0 -> mean row = 0.
Proof. intros H. unfold mean. rewrite H. unfold Rdiv. ring. Qed.

Lemma zero_sums_means (Q : Mat) :
  Forall (fun row => sum row = 0) Q -> map mean Q = repeat 0 (length Q).
Proof.
  induction 1 as [|row t Hr _ IH]; simpl; [reflexivity|].
  rewrite mean_of_zero_sum, IH by exact Hr. reflexivity.
Qed.

Lemma zero_sums_concat (Q : Mat) :
  Forall (fun row => sum row = 0) Q -> sum (concat Q) = 0.
Proof.
  induction 1 as [|row t Hr _ IH]; simpl; [reflexivity|].
  rewrite sum_app, Hr, IH. ring.
Qed.

Lemma Forall_map2 {A : Type} (P : list R -> Prop) (F : list R -> A -> list R)
    (S : Mat) (xs : list A) :
  (forall row a, In row S -> In a xs -> P (F row a)) ->
  Forall P (map2 F S xs).
Proof.
  revert xs; induction S as [|row t IH]; intros [|a xs] H; simpl;
    try constructor.
  - apply H; simpl; auto.
  - apply IH. intros; apply H; simpl; auto.
Qed.

(** Every mode but [minmax] has offset [scale2 = 0] on data whose sums
    vanish. *)
Lemma scale_stats_offset (v : Vec) (m : Scaling) tr (q : R * R) :
  m <> MinMax -> sum v = 0 -> scale_stats v m tr = Ok q -> snd q = 0.
Proof.
  intros Hm Hs. unfold scale_stats.
  destruct (vmin v), (vmax v); try discriminate.
  destruct m; [|exfalso; auto| |]; simpl;
    (destruct (Req_dec_T _ 0); [discriminate|]);
    intros H; injection H as <-; simpl; auto.
  apply mean_of_zero_sum, Hs.
Qed.

Lemma scale_fit_offset (S1 : Mat) (m : Scaling) tr b p :
  m <> MinMax -> Forall (fun row => sum row = 0) S1 ->
  scale_fit S1 m tr b = Ok p ->
  match p with
  | Global _ s2 => s2 = 0
  | ByRow _ s2 => Forall (fun c => c = 0) s2
  end.
Proof.
  intros Hm Hs. unfold scale_fit. destruct (negb _); [discriminate|].
  destruct b.
  - destruct (all_ok _) as [ps|e] eqn:Hps; simpl; [|discriminate].
    intros H; injection H as <-.
    apply all_ok_spec in Hps. rewrite Forall_forall. intros c Hc.
    apply in_map_iff in Hc as (q & <- & Hq).
    destruct (Forall2_in_right _ _ _ _ Hps Hq) as (r & Hr & Hrq).
    apply in_map_iff in Hr as (row & <- & Hrow).
    rewrite Forall_forall in Hs.
    exact (scale_stats_offset row m tr q Hm (Hs row Hrow) Hrq).
  - destruct (scale_stats _ _ _) as [q|e] eqn:Hq; simpl; [|discriminate].
    intros H; injection H as <-.
    exact (scale_stats_offset _ m tr q Hm (zero_sums_concat S1 Hs) Hq).
Qed.

Lemma scale_apply_zero_sums (S1 : Mat) (p : ScaleParams) (Q : Mat) :
  Forall (fun row => sum row = 0) S1 ->
  match p with
  | Global _ s2 => s2 = 0
  | ByRow _ s2 => Forall (fun c => c = 0) s2
  end ->
  scale_apply S1 p = Ok Q -> Forall (fun row => sum row = 0) Q.
Proof.
  intros Hs Hp. destruct p as [s1 s2|s1 s2]; simpl.
  - intros H; injection H as <-. subst s2.
    rewrite Forall_forall in *. intros row' Hin.
    apply in_map_iff in Hin as (row & <- & Hrow).
    rewrite sum_map_affine, Hs by exact Hrow. unfold Rdiv. ring.
  - destruct (_ && _); [|discriminate].
    intros H; injection H as <-. apply Forall_map2.
    intros row [a c] Hrow Hin. apply in_combine_r in Hin.
    rewrite Forall_forall in Hs, Hp.
    rewrite sum_map_affine, Hs, (Hp c Hin) by exact Hrow.
    unfold Rdiv. ring.
Qed.

(** ** The transformer life cycle *)

(** A failed [fit] leaves the object as it was. *)
Lemma st_fit_err (t t' : Transformer) (S : Mat) (e : error) :
  st_fit t S = (t', Err e) -> t' = t.
Proof.
  unfold st_fit. destruct (fit_params (config t) S) as [[ref p]|e'];
    intros H; injection H; intros; [discriminate|congruence].
Qed.

(** A successful [fit] records the fit-time row count. *)
Lemma st_fit_ok (t t' : Transformer) (S : Mat) :
  st_fit t S = (t', Ok tt) ->
  fitted t' = true /\ n t' = length S /\ config t' = config t.
Proof.
  unfold st_fit. destruct (fit_params (config t) S) as [[ref p]|e];
    intros H; injection H; intros; subst; [|discriminate].
  simpl. auto.
Qed.

(** [fit] reads only the settings of the object it is called on. *)
Lemma st_fit_fresh (t t' : Transformer) (S : Mat) :
  st_fit t S = (t', Ok tt) -> st_fit (st_new (config t)) S = (t', Ok tt).
Proof.
  unfold st_fit. simpl. destruct (fit_params (config t) S) as [[ref p]|e];
    intros H; [exact H|injection H; intros; discriminate].
Qed.

Lemma fit_history_unfitted (t : Transformer) (Ss : list Mat) :
  fitted t = false ->
  forallb is_err (snd (fit_history t Ss)) = true ->
  fitted (fst (fit_history t Ss)) = false.
Proof.
  revert t; induction Ss as [|S0 Ss IH]; intros t Ht; simpl; auto.
  destruct (st_fit t S0) as [t1 o] eqn:Hf.
  destruct (fit_history t1 Ss) as [t2 os] eqn:Hh. simpl.
  destruct o as [u|e]; simpl; [discriminate|].
  intros Hall. apply st_fit_err in Hf. subst t1.
  specialize (IH t Ht). rewrite Hh in IH. apply IH, Hall.
Qed.

(** ** Blocks of a multi-variable transformer *)

Lemma list_sum_repeat (k nv : nat) : list_sum (repeat k nv) = (nv * k)%nat.
Proof. induction nv as [|nv IH]; simpl; [reflexivity|]. rewrite IH. lia. Qed.

Lemma compute_sizes_sum (m : MultiTransformer) (rows : nat) sizes :
  compute_sizes m rows = Ok sizes -> list_sum sizes = rows.
Proof.
  unfold compute_sizes. destruct (variable_sizes m) as [s|].
  - destruct (list_sum s =? rows)%nat eqn:E; intros H; injection H as <-
      || discriminate.
    apply Nat.eqb_eq, E.
  - destruct (rows mod num_variables m =? 0)%nat eqn:E; [|discriminate].
    intros H; injection H as <-. apply Nat.eqb_eq in E.
    rewrite list_sum_repeat.
    pose proof (Nat.div_mod_eq rows (num_variables m)) as D. lia.
Qed.

(** Fitting every block then transforming every block is, block by block,
    [fit_transform] of a fresh transformer with that block's settings. *)
Lemma fit_then_apply_blocks (ts ts' : list Transformer) (Bs outs : list Mat)
    (i j : nat) :
  fit_blocks i ts Bs = Ok ts' ->
  apply_blocks st_transform j ts' Bs = Ok outs ->
  Forall2 (fun tB out =>
             snd (st_fit_transform (st_new (config (fst tB))) (snd tB))
             = Ok out)
    (combine ts Bs) outs.
Proof.
  revert Bs ts' outs i j.
  induction ts as [|t ts IH]; intros [|B Bs] ts' outs i j Hf Ha; simpl in *.
  - injection Hf as <-. simpl in Ha. injection Ha as <-. constructor.
  - injection Hf as <-. simpl in Ha. injection Ha as <-. constructor.
  - injection Hf as <-. simpl in Ha. injection Ha as <-. constructor.
  - destruct (st_fit t B) as [t1 [[]|e]] eqn:Hfit; [|discriminate].
    destruct (fit_blocks (S i) ts Bs) as [rest|e] eqn:Hrest; simpl in Hf;
      [|discriminate].
    injection Hf as <-. simpl in Ha.
    destruct (st_transform t1 B) as [Q1|e] eqn:HQ1; [|discriminate].
    destruct (apply_blocks st_transform (S j) rest Bs) as [outs'|e]
      eqn:Hout; simpl in Ha; [|discriminate].
    injection Ha as <-. constructor.
    + simpl. unfold st_fit_transform.
      rewrite (st_fit_fresh _ _ _ Hfit). exact HQ1.
    + eapply IH; eassumption.
Qed.

(** ** The store *)

Lemma set_nth_other (h : Heap) (l i : nat) (B : Mat) :
  i <> l -> nth_error (set_nth h l B) i = nth_error h i.
Proof.
  revert l i; induction h as [|x t IH]; intros [|l] [|i] H; simpl;
    try reflexivity; try congruence.
  apply IH. lia.
Qed.

Lemma set_nth_same (h : Heap) (l : nat) (B : Mat) :
  (l < length h)%nat -> nth_error (set_nth h l B) l = Some B.
Proof.
  revert l; induction h as [|x t IH]; intros [|l] H; simpl in *;
    try lia; try reflexivity.
  apply IH. lia.
Qed.

Lemma set_nth_length (h : Heap) (l : nat) (B : Mat) :
  length (set_nth h l B) = length h.
Proof.
  revert l; induction h as [|x t IH]; intros [|l]; simpl; auto.
Qed.

Lemma set_nth_id (h : Heap) (l : nat) (A : Mat) :
  nth_error h l = Some A -> set_nth h l A = h.
Proof.
  revert l; induction h as [|x t IH]; intros [|l] H; simpl in *;
    try discriminate.
  - injection H as ->. reflexivity.
  - rewrite (IH l H). reflexivity.
Qed.

Lemma update_spec (q : nat) (f : Mat -> result Mat) (h0 : Heap) (A : Mat) :
  nth_error h0 q = Some A ->
  update q f h0 = Some (match f A with
                        | Ok B => (set_nth h0 q B, Ok tt)
                        | Err e => (h0, Err e)
                        end).
Proof.
  intros HA. unfold update. rewrite HA. destruct (f A); reflexivity.
Qed.

Lemma hret_spec (q : nat) (h0 : Heap) (A : Mat) :
  nth_error h0 q = Some A ->
  hret tt h0 = Some (match (Ok A : result Mat) with
                     | Ok B => (set_nth h0 q B, Ok tt)
                     | Err e => (h0, Err e)
                     end).
Proof.
  intros HA. cbv beta iota. rewrite (set_nth_id _ _ _ HA). reflexivity.
Qed.

(** Two in-place steps on a fresh copy of [A0]: the arrays that existed
    before are untouched, and the copy ends up holding the composition of
    the two steps. *)
Lemma run_on_copy (h h' : Heap) (A0 : Mat) (m1 m2 : nat -> HeapM unit)
    (f1 f2 : Mat -> result Mat) (r : result nat) :
  (forall q h0 A, nth_error h0 q = Some A ->
     m1 q h0 = Some (match f1 A with
                     | Ok B => (set_nth h0 q B, Ok tt)
                     | Err e => (h0, Err e)
                     end)) ->
  (forall q h0 A, nth_error h0 q = Some A ->
     m2 q h0 = Some (match f2 A with
                     | Ok B => (set_nth h0 q B, Ok tt)
                     | Err e => (h0, Err e)
                     end)) ->
  hbind (alloc A0) (fun q => hbind (m1 q) (fun _ => hbind (m2 q)
    (fun _ => hret q))) h = Some (h', r) ->
  (forall i, (i < length h)%nat -> nth_error h' i = nth_error h i) /\
  match r with
  | Ok l' => l' = length h /\
             exists Q, nth_error h' l' = Some Q /\ bind (f1 A0) f2 = Ok Q
  | Err e => bind (f1 A0) f2 = Err e
  end.
Proof.
  intros H1 H2 H. cbv beta iota delta [hbind alloc hret] in H.
  set (q := length h) in *.
  assert (Hq : nth_error (h ++ [A0]) q = Some A0)
    by (unfold q; rewrite nth_error_app2, Nat.sub_diag by lia; reflexivity).
  assert (Hpre : forall i, (i < q)%nat -> nth_error (h ++ [A0]) i = nth_error h i)
    by (intros; apply nth_error_app1; assumption).
  assert (Lq : (q < length (h ++ [A0]))%nat)
    by (unfold q; rewrite length_app; simpl; lia).
  rewrite (H1 _ _ _ Hq) in H.
  destruct (f1 A0) as [B|e] eqn:E1; cbv beta iota in H; cbn [bind].
  - assert (HB : nth_error (set_nth (h ++ [A0]) q B) q = Some B)
      by (apply set_nth_same; exact Lq).
    rewrite (H2 _ _ _ HB) in H.
    destruct (f2 B) as [C|e] eqn:E2; cbv beta iota in H;
      injection H as <- <-.
    + split.
      * intros i Hi. rewrite !set_nth_other by lia. apply Hpre, Hi.
      * split; [reflexivity|]. exists C. split; [|reflexivity].
        apply set_nth_same. rewrite set_nth_length. exact Lq.
    + split; [|reflexivity].
      intros i Hi. rewrite set_nth_other by lia. apply Hpre, Hi.
  - injection H as <- <-. split; [exact Hpre|reflexivity].
Qed.

End PreFacts.

(** ** The claims on the transformation engine *)
Module PreClaims.
Import Pre PreFacts.

(** C1: after a successful [fit(S)], [transform(S)] succeeds and
    [inverse_transform] of its result gives back [S] (exactly, in exact
    arithmetic): shift then scale, undone by unscale then unshift, for every
    setting of [center], [scaling] and [byrow]. *)
Theorem fit_transform_inverse_roundtrip (t t' : Transformer) (S : Mat) :
  st_fit t S = (t', Ok tt) ->
  exists Q, st_transform t' S = Ok Q /\ st_inverse_transform t' Q = Ok S.
Proof.
  unfold st_fit.
  destruct (fit_params (config t) S) as [[ref p]|e] eqn:Hf;
    intros H; injection H; intros; [|discriminate].
  subst t'.
  destruct (fit_params_spec _ _ _ _ Hf) as (Hv & Href & Hp).
  destruct (shift_step S ref (center (config t)) Hv Href)
    as (S1 & E1 & L1 & U1).
  assert (Hp1 : forall q, p = Some q -> params_ok q (length S1))
    by (rewrite (lengths_length _ _ L1); exact Hp).
  destruct (scale_step S1 p Hp1) as (Q & E2 & L2 & U2).
  exists Q. unfold st_transform, st_inverse_transform. simpl.
  rewrite Nat.eqb_refl, Hv. simpl. rewrite E1. simpl. split; [exact E2|].
  assert (LQ : map (@length R) Q = map (@length R) S) by congruence.
  rewrite (lengths_length _ _ LQ), Nat.eqb_refl,
    (valid_snapshots_lengths _ _ LQ), Hv.
  simpl. rewrite U2. simpl. exact U1.
Qed.

Lemma fit_transform_inverse_roundtrip_witness :
  st_fit (st_new (mkStConfig true None false None)) [[1; 3]]
  = (mkTransformer (mkStConfig true None false None) true 1 (Some [mean [1; 3]]) None, Ok tt) /\
  exists Q,
    st_transform (mkTransformer (mkStConfig true None false None) true 1 (Some [mean [1; 3]]) None)
      [[1; 3]] = Ok Q /\
    st_inverse_transform
      (mkTransformer (mkStConfig true None false None) true 1 (Some [mean [1; 3]]) None) Q
    = Ok [[1; 3]].
Proof.
  assert (H : st_fit (st_new (mkStConfig true None false None)) [[1; 3]]
    = (mkTransformer (mkStConfig true None false None) true 1 (Some [mean [1; 3]]) None, Ok tt))
    by reflexivity.
  split; [exact H|].
  exact (fit_transform_inverse_roundtrip _ _ _ H).
Defined.

(** C2: for a snapshot matrix [S], [shift(S)] with the reference omitted
    returns [S] minus the row means (the mean across columns) together with
    those means, and [unshift] with them gives back [S] exactly. *)
Theorem shift_mean_unshift (S : Mat) :
  valid_snapshots S = true ->
  shift S None
  = Ok (map2 (fun row c => map (fun x => x - c) row) S (map mean S),
        map mean S) /\
  unshift (map2 (fun row c => map (fun x => x - c) row) S (map mean S))
    (map mean S) = Ok S.
Proof.
  intros Hv. split.
  - apply shift_none, Hv.
  - apply unshift_shift, length_map.
Qed.

Lemma shift_mean_unshift_witness :
  valid_snapshots [[1; 2; 3]; [4; 5; 6]] = true /\
  shift [[1; 2; 3]; [4; 5; 6]] None
  = Ok (map2 (fun row c => map (fun x => x - c) row) [[1; 2; 3]; [4; 5; 6]]
          (map mean [[1; 2; 3]; [4; 5; 6]]),
        map mean [[1; 2; 3]; [4; 5; 6]]) /\
  unshift (map2 (fun row c => map (fun x => x - c) row) [[1; 2; 3]; [4; 5; 6]]
             (map mean [[1; 2; 3]; [4; 5; 6]]))
    (map mean [[1; 2; 3]; [4; 5; 6]]) = Ok [[1; 2; 3]; [4; 5; 6]].
Proof.
  assert (H : valid_snapshots [[1; 2; 3]; [4; 5; 6]] = true) by reflexivity.
  split; [exact H|].
  exact (shift_mean_unshift _ H).
Defined.

(** C3 (amended): on a matrix whose entries are not all equal
    ([min < max]), [minmax] scaling with a target interval [(a, b)] where
    [a < b] computes [scale1 = (max - min) / (b - a)] and
    [scale2 = min - a * scale1], and the transformed data has smallest
    entry exactly [a] and largest entry exactly [b]. *)
Theorem minmax_bounds (S : Mat) (a b mn mx : R) :
  valid_snapshots S = true ->
  vmin (concat S) = Some mn -> vmax (concat S) = Some mx ->
  mn < mx -> a < b ->
  let s1 := (mx - mn) / (b - a) in
  exists Q,
    scale S MinMax (Some (a, b)) false = Ok (Q, Global s1 (mn - a * s1)) /\
    vmin (concat Q) = Some a /\ vmax (concat Q) = Some b.
Proof.
  intros Hv Hmn Hmx Hlt Hab s1.
  assert (Hs1 : 0 < s1) by (apply Rdiv_lt_0_compat; lra).
  unfold scale, scale_fit. rewrite Hv. simpl.
  unfold scale_stats. rewrite Hmn, Hmx. simpl.
  destruct (Req_dec_T ((mx - mn) / (b - a)) 0) as [H0|_];
    [fold s1 in H0; lra|].
  simpl. eexists; split; [reflexivity|].
  rewrite <- !concat_map.
  rewrite vmin_map, vmax_map by (apply affine_mono; exact Hs1).
  rewrite Hmn, Hmx. simpl. split; f_equal.
  - field. lra.
  - unfold s1. field. lra.
Qed.

Lemma minmax_bounds_witness :
  (valid_snapshots [[0; 1]] = true /\
   vmin (concat [[0; 1]]) = Some (Rmin 1 0) /\
   vmax (concat [[0; 1]]) = Some (Rmax 1 0) /\
   Rmin 1 0 < Rmax 1 0 /\ 0 < 1) /\
  let s1 := (Rmax 1 0 - Rmin 1 0) / (1 - 0) in
  exists Q,
    scale [[0; 1]] MinMax (Some (0, 1)) false
    = Ok (Q, Global s1 (Rmin 1 0 - 0 * s1)) /\
    vmin (concat Q) = Some 0 /\ vmax (concat Q) = Some 1.
Proof.
  assert (H1 : valid_snapshots [[0; 1]] = true) by reflexivity.
  assert (H2 : vmin (concat [[0; 1]]) = Some (Rmin 1 0)) by reflexivity.
  assert (H3 : vmax (concat [[0; 1]]) = Some (Rmax 1 0)) by reflexivity.
  assert (H4 : Rmin 1 0 < Rmax 1 0)
    by (rewrite (Rmin_right 1 0), (Rmax_left 1 0); lra).
  assert (H5 : 0 < 1) by lra.
  split; [tauto|].
  exact (minmax_bounds [[0; 1]] 0 1 (Rmin 1 0) (Rmax 1 0) H1 H2 H3 H4 H5).
Defined.

(** C3 (counterexample): with the reversed target [(a, b) = (1, 0)] the
    divisor [scale1] is negative and the order of the entries flips: on
    [S = [[0, 1]]] the smallest transformed entry is [0 = b], not [a = 1],
    and the largest is [1 = a], not [b = 0]. *)
Lemma minmax_reversed_target :
  match scale [[0; 1]] MinMax (Some (1, 0)) false with
  | Ok (Q, _) =>
      vmin (concat Q) = Some 0 /\ vmax (concat Q) = Some 1 /\
      vmin (concat Q) <> Some 1 /\ vmax (concat Q) <> Some 0
  | Err _ => False
  end.
Proof.
  unfold scale, scale_fit. simpl. unfold scale_stats. simpl.
  rewrite (Rmin_right 1 0), (Rmax_left 1 0) by lra.
  replace ((1 - 0) / (0 - 1)) with (-1) by field.
  destruct (Req_dec_T (-1) 0) as [H|_]; [lra|]. simpl.
  replace ((1 - (0 - 1 * -1)) / -1) with 0 by field.
  replace ((0 - (0 - 1 * -1)) / -1) with 1 by field.
  rewrite (Rmin_left 0 1), (Rmax_right 0 1) by lra.
  repeat split; intro H; injection H; lra.
Qed.

(** C4 (amended): for a transformer with [center = True] and a scaling
    that is not [minmax] (none, [standard], [maxabs] or [maxabssym]), the
    mean across columns (one value per row) of [transform(S_train)] on the
    fitting data is the zero vector. *)
Theorem centered_row_means (t t' : Transformer) (S Q : Mat) :
  center (config t) = true -> scaling (config t) <> Some MinMax ->
  st_fit t S = (t', Ok tt) -> st_transform t' S = Ok Q ->
  map mean Q = repeat 0 (length S).
Proof.
  intros Hc Hm. unfold st_fit, fit_params. rewrite Hc.
  destruct (valid_snapshots S) eqn:Hv; simpl;
    [|intros H; injection H; discriminate].
  rewrite shift_none by exact Hv. simpl.
  pose proof (shift_mean_zero_sums S) as Hz.
  assert (L1 : length (map2 (fun row c => map (fun x => x - c) row) S
                         (map mean S)) = length S)
    by (rewrite map2_length, length_map; lia).
  set (S1 := map2 (fun row c => map (fun x => x - c) row) S (map mean S))
    in *.
  destruct (scaling (config t)) as [m|] eqn:Hsc; simpl.
  - destruct (scale_fit S1 m (target_range (config t)) (byrow (config t)))
      as [q|e] eqn:Hq; simpl.
    2: { intros H; injection H as _ He; discriminate He. }
    intros H; injection H as <-.
    unfold st_transform. simpl. rewrite Nat.eqb_refl, Hv. simpl.
    rewrite shift_some by (auto; apply length_map). simpl. fold S1.
    intros HQ.
    assert (Hm' : m <> MinMax) by (intros ->; apply Hm; reflexivity).
    pose proof (scale_fit_offset S1 m _ _ q Hm' Hz Hq) as Hoff.
    pose proof (scale_apply_zero_sums S1 q Q Hz Hoff HQ) as HzQ.
    destruct (scale_roundtrip S1 q) as (Q' & HQ' & _ & LQ).
    { eapply scale_fit_ok; exact Hq. }
    rewrite HQ in HQ'. injection HQ' as <-.
    rewrite zero_sums_means by exact HzQ.
    rewrite (lengths_length _ _ LQ), L1. reflexivity.
  - intros H; injection H as <-.
    unfold st_transform. simpl. rewrite Nat.eqb_refl, Hv. simpl.
    rewrite shift_some by (auto; apply length_map). simpl. fold S1.
    intros HQ; injection HQ as <-.
    rewrite zero_sums_means by exact Hz. rewrite L1. reflexivity.
Qed.

Lemma centered_row_means_witness :
  (center (config (st_new (mkStConfig true None false None))) = true /\
   scaling (config (st_new (mkStConfig true None false None)))
     <> Some MinMax /\
   st_fit (st_new (mkStConfig true None false None)) [[1; 3]]
   = (mkTransformer (mkStConfig true None false None) true 1
        (Some [mean [1; 3]]) None, Ok tt) /\
   st_transform (mkTransformer (mkStConfig true None false None) true 1
                   (Some [mean [1; 3]]) None) [[1; 3]]
   = Ok [[1 - mean [1; 3]; 3 - mean [1; 3]]]) /\
  map mean [[1 - mean [1; 3]; 3 - mean [1; 3]]] = repeat 0 (length [[1; 3]]).
Proof.
  assert (H1 : center (config (st_new (mkStConfig true None false None)))
               = true) by reflexivity.
  assert (H2 : scaling (config (st_new (mkStConfig true None false None)))
               <> Some MinMax) by discriminate.
  assert (H3 : st_fit (st_new (mkStConfig true None false None)) [[1; 3]]
    = (mkTransformer (mkStConfig true None false None) true 1
         (Some [mean [1; 3]]) None, Ok tt)) by reflexivity.
  assert (H4 : st_transform (mkTransformer (mkStConfig true None false None)
                 true 1 (Some [mean [1; 3]]) None) [[1; 3]]
               = Ok [[1 - mean [1; 3]; 3 - mean [1; 3]]]) by reflexivity.
  split; [tauto|].
  exact (centered_row_means _ _ _ _ H1 H2 H3 H4).
Defined.

(** C4 (counterexample): with [center = True] and [minmax] scaling to
    [(0, 1)], the centered row [[-1, 1]] of [S = [[0, 2]]] is mapped onto
    [[0, 1]], whose mean is [1/2], not [0]. *)
Lemma centered_minmax_row_mean :
  match snd (st_fit_transform
               (st_new (mkStConfig true (Some MinMax) false (Some (0, 1))))
               [[0; 2]]) with
  | Ok Q => map mean Q = [1 / 2] /\ map mean Q <> [0]
  | Err _ => False
  end.
Proof.
  assert (Hm : mean [0; 2] = 1) by (unfold mean; simpl; field).
  unfold st_fit_transform, st_fit, fit_params. simpl. rewrite Hm.
  unfold scale_fit, scale_stats. simpl.
  replace (0 - 1) with (-1) by ring. replace (2 - 1) with 1 by ring.
  rewrite (Rmin_right 1 (-1)), (Rmax_left 1 (-1)) by lra.
  replace ((1 - -1) / (1 - 0)) with 2 by field.
  destruct (Req_dec_T 2 0) as [H|_]; [lra|]. simpl.
  unfold st_transform, shift. simpl.
  assert (Hq : mean [(0 - 1 - (-1 - 0 * 2)) / 2; (2 - 1 - (-1 - 0 * 2)) / 2]
               = 1 / 2) by (unfold mean; simpl; field).
  rewrite Hq. split; [reflexivity|].
  intro H; injection H; lra.
Qed.

(** C5: on a transformer on which no [fit] has succeeded (any sequence of
    failed fits after construction), [transform] and [inverse_transform]
    raise a state error. *)
Theorem unfitted_state_error (c : StConfig) (Ss : list Mat) (X : Mat) :
  forallb is_err (snd (fit_history (st_new c) Ss)) = true ->
  st_transform (fst (fit_history (st_new c) Ss)) X = Err StateError /\
  st_inverse_transform (fst (fit_history (st_new c) Ss)) X = Err StateError.
Proof.
  intros Hall.
  pose proof (fit_history_unfitted (st_new c) Ss eq_refl Hall) as Hf.
  unfold st_transform, st_inverse_transform. rewrite Hf. auto.
Qed.

Lemma unfitted_state_error_witness :
  forallb is_err
    (snd (fit_history (st_new (mkStConfig true None false None)) [[]]))
  = true /\
  st_transform (fst (fit_history (st_new (mkStConfig true None false None))
                       [[]])) [[1]] = Err StateError /\
  st_inverse_transform
    (fst (fit_history (st_new (mkStConfig true None false None)) [[]])) [[1]]
  = Err StateError.
Proof.
  assert (H : forallb is_err
    (snd (fit_history (st_new (mkStConfig true None false None)) [[]]))
    = true) by reflexivity.
  split; [exact H|].
  exact (unfitted_state_error _ _ [[1]] H).
Defined.

(** C6: after a successful [fit] on a matrix with [n] rows, [transform] and
    [inverse_transform] of a matrix with another row count raise a shape
    error. *)
Theorem row_count_guard (t t' : Transformer) (S X : Mat) :
  st_fit t S = (t', Ok tt) -> length X <> length S ->
  st_transform t' X = Err ShapeError /\
  st_inverse_transform t' X = Err ShapeError.
Proof.
  intros Hfit Hx. destruct (st_fit_ok _ _ _ Hfit) as (Hf & Hn & _).
  apply Nat.eqb_neq in Hx.
  unfold st_transform, st_inverse_transform.
  rewrite Hf, Hn, Hx. auto.
Qed.

Lemma row_count_guard_witness :
  (st_fit (st_new (mkStConfig false None false None)) [[1]]
   = (mkTransformer (mkStConfig false None false None) true 1 None None,
      Ok tt) /\
   length [[1]; [2]] <> length [[1]]) /\
  st_transform (mkTransformer (mkStConfig false None false None) true 1
                  None None) [[1]; [2]] = Err ShapeError /\
  st_inverse_transform (mkTransformer (mkStConfig false None false None)
                          true 1 None None) [[1]; [2]] = Err ShapeError.
Proof.
  assert (H1 : st_fit (st_new (mkStConfig false None false None)) [[1]]
    = (mkTransformer (mkStConfig false None false None) true 1 None None,
       Ok tt)) by reflexivity.
  assert (H2 : length [[1]; [2]] <> length [[1]]) by (simpl; lia).
  split; [tauto|].
  exact (row_count_guard _ _ _ _ H1 H2).
Defined.

(** C8: a [fit] that raises leaves the transformer exactly as it was,
    parameters of an earlier successful fit included; so does the [fit] of
    a multi-variable transformer. *)
Theorem fit_failure_atomic :
  (forall (t t' : Transformer) (S : Mat) (e : error),
      st_fit t S = (t', Err e) -> t' = t) /\
  (forall (m m' : MultiTransformer) (S : Mat) (e : error),
      multi_fit m S = (m', Err e) -> m' = m).
Proof.
  split.
  - exact st_fit_err.
  - intros m m' S e. unfold multi_fit.
    destruct (sizes <- compute_sizes m (length S) ;;
              ts <- fit_blocks 0 (transformers m) (split_rows sizes S) ;;
              Ok (sizes, ts)) as [[sizes ts]|e'];
      intros H; injection H; intros; [discriminate|congruence].
Qed.

Lemma fit_failure_atomic_witness :
  let (t', o) := st_fit (mkTransformer (mkStConfig false None false None)
                           true 1 None None) [[1]; [2; 3]] in
  is_err o = true /\
  t' = mkTransformer (mkStConfig false None false None) true 1 None None.
Proof.
  assert (Hf : st_fit (mkTransformer (mkStConfig false None false None)
                         true 1 None None) [[1]; [2; 3]]
    = (mkTransformer (mkStConfig false None false None) true 1 None None,
       Err ShapeError)) by reflexivity.
  rewrite Hf. split; [reflexivity|].
  exact (proj1 fit_failure_atomic _ _ _ _ Hf).
Defined.

(** C9: [transform] and [inverse_transform] on the array stored at [l]
    leave every array of the caller as it was, including the one at [l];
    their result is a newly allocated array holding the transformed
    matrix, and what they raise is what the transformation raises. *)
Theorem transform_allocates (t : Transformer) (inverse : bool) (h h' : Heap)
    (l : nat) (A0 : Mat) (r : result nat) :
  nth_error h l = Some A0 ->
  (if inverse then inverse_transform_at t l else transform_at t l) h
    = Some (h', r) ->
  (forall i, (i < length h)%nat -> nth_error h' i = nth_error h i) /\
  match r with
  | Ok l' => l' = length h /\ l' <> l /\
      exists Q, nth_error h' l' = Some Q /\
      (if inverse then st_inverse_transform t A0 else st_transform t A0)
        = Ok Q
  | Err e =>
      (if inverse then st_inverse_transform t A0 else st_transform t A0)
      = Err e
  end.
Proof.
  intros Hl H.
  assert (Hlt : (l < length h)%nat)
    by (apply nth_error_Some; rewrite Hl; discriminate).
  destruct inverse;
    [unfold inverse_transform_at in H; unfold st_inverse_transform
    |unfold transform_at in H; unfold st_transform];
    unfold hbind at 1, load in H; rewrite Hl in H; cbv beta iota in H;
    (destruct (fitted t); cbn [negb] in H |- *;
     [|unfold hraise in H; injection H as <- <-; split; [auto|reflexivity]]);
    (destruct (length A0 =? n t)%nat; cbn [negb] in H |- *;
     [|unfold hraise in H; injection H as <- <-; split; [auto|reflexivity]]);
    (destruct (valid_snapshots A0); cbn [negb] in H |- *;
     [|unfold hraise in H; injection H as <- <-; split; [auto|reflexivity]]).
  - pose proof (run_on_copy h h' A0
      (fun q => match scale_params t with
                | Some p => update q (fun A => unscale A p)
                | None => hret tt
                end)
      (fun q => match reference t with
                | Some r0 => update q (fun A => unshift A r0)
                | None => hret tt
                end)
      (fun A => match scale_params t with
                | Some p => unscale A p
                | None => Ok A
                end)
      (fun A => match reference t with
                | Some r0 => unshift A r0
                | None => Ok A
                end) r) as K.
    destruct K as [Hfr Hr];
      [intros q h0 A HA; destruct (scale_params t);
         [exact (update_spec _ _ _ _ HA) | exact (hret_spec _ _ _ HA)]
      |intros q h0 A HA; destruct (reference t);
         [exact (update_spec _ _ _ _ HA) | exact (hret_spec _ _ _ HA)]
      |exact H|].
    split; [exact Hfr|].
    destruct r as [l'|e]; [|exact Hr].
    destruct Hr as (-> & Q & HQ & HE).
    split; [reflexivity|]. split; [lia|]. exists Q. split; [exact HQ|exact HE].
  - pose proof (run_on_copy h h' A0
      (fun q => match reference t with
                | Some r0 => update q
                    (fun A => p <- shift A (Some r0) ;; Ok (fst p))
                | None => hret tt
                end)
      (fun q => match scale_params t with
                | Some p => update q (fun A => scale_apply A p)
                | None => hret tt
                end)
      (fun A => match reference t with
                | Some r0 => p <- shift A (Some r0) ;; Ok (fst p)
                | None => Ok A
                end)
      (fun A => match scale_params t with
                | Some p => scale_apply A p
                | None => Ok A
                end) r) as K.
    destruct K as [Hfr Hr];
      [intros q h0 A HA; destruct (reference t);
         [exact (update_spec _ _ _ _ HA) | exact (hret_spec _ _ _ HA)]
      |intros q h0 A HA; destruct (scale_params t);
         [exact (update_spec _ _ _ _ HA) | exact (hret_spec _ _ _ HA)]
      |exact H|].
    split; [exact Hfr|].
    destruct r as [l'|e]; [|exact Hr].
    destruct Hr as (-> & Q & HQ & HE).
    split; [reflexivity|]. split; [lia|]. exists Q. split; [exact HQ|exact HE].
Qed.

Lemma transform_allocates_witness :
  let t := mkTransformer (mkStConfig true (Some MaxAbs) false None)
             true 1 (Some [2]) (Some (Global 2 0)) in
  (nth_error [[[5]]; [[1; 3]]] 1 = Some [[1; 3]] /\
      transform_at t 1 [[[5]]; [[1; 3]]]
   = Some ([[[5]]; [[1; 3]]; [[(1 - 2 - 0) / 2; (3 - 2 - 0) / 2]]], Ok 2%nat)) /\
      ((forall i, (i < length [[[5]]; [[1; 3]]])%nat ->
     nth_error [[[5]]; [[1; 3]]; [[(1 - 2 - 0) / 2; (3 - 2 - 0) / 2]]] i
     = nth_error [[[5]]; [[1; 3]]] i) /\
      match (Ok 2%nat : result nat) with
   | Ok l' => l' = length [[[5]]; [[1; 3]]] /\ l' <> 1%nat /\
      exists Q, nth_error [[[5]]; [[1; 3]];
                            [[(1 - 2 - 0) / 2; (3 - 2 - 0) / 2]]] l' = Some Q
                 /\ st_transform t [[1; 3]] = Ok Q
   | Err e => st_transform t [[1; 3]] = Err e
   end).
Proof.
  intros t.
  assert (H1 : nth_error [[[5]]; [[1; 3]]] 1 = Some [[1; 3]]) by reflexivity.
  assert (H2 : transform_at t 1 [[[5]]; [[1; 3]]]
   = Some ([[[5]]; [[1; 3]]; [[(1 - 2 - 0) / 2; (3 - 2 - 0) / 2]]], Ok 2%nat))
    by reflexivity.
  split; [split; [exact H1|exact H2]|].
  exact (transform_allocates t false _ _ 1 _ _ H1 H2).
Defined.

(** C7: [fit_transform] of a multi-variable transformer on a stacked
    matrix is the concatenation, block by block, of [fit_transform] of a
    fresh single transformer with that block's settings on that block
    alone; each output block depends on its own block and settings only. *)
Theorem multi_blocks_independent (m m' : MultiTransformer) (S Q : Mat) :
  multi_fit_transform m S = (m', Ok Q) ->
  exists sizes outs,
    compute_sizes m (length S) = Ok sizes /\
    Q = concat outs /\
    Forall2 (fun tB out =>
               snd (st_fit_transform (st_new (config (fst tB))) (snd tB))
               = Ok out)
      (combine (transformers m) (split_rows sizes S)) outs.
Proof.
  unfold multi_fit_transform, multi_fit.
  destruct (compute_sizes m (length S)) as [sizes|e] eqn:Hs; simpl;
    [|intros H; injection H; intros; discriminate].
  destruct (fit_blocks 0 (transformers m) (split_rows sizes S))
    as [ts|e] eqn:Hf; simpl; [|intros H; injection H; intros; discriminate].
  intros H; injection H as _ HQ.
  unfold multi_transform, multi_apply in HQ. simpl in HQ.
  rewrite (compute_sizes_sum _ _ _ Hs), Nat.eqb_refl in HQ. simpl in HQ.
  destruct (apply_blocks st_transform 0 ts (split_rows sizes S))
    as [outs|e] eqn:Ha; simpl in HQ; [|discriminate].
  injection HQ as <-.
  exists sizes, outs. repeat split; auto.
  eapply fit_then_apply_blocks; eassumption.
Qed.

Lemma multi_blocks_independent_witness :
  (multi_new 2 None (PerBlock [true; false]) (Shared None) (Shared false)
     (Shared None) None
   = Ok (mkMulti 2 None None
           [st_new (mkStConfig true None false None);
            st_new (mkStConfig false None false None)] false []) /\
   multi_fit_transform
     (mkMulti 2 None None
        [st_new (mkStConfig true None false None);
         st_new (mkStConfig false None false None)] false [])
     [[1; 3]; [2; 4]]
   = (mkMulti 2 None None
        [mkTransformer (mkStConfig true None false None) true 1
           (Some [mean [1; 3]]) None;
         mkTransformer (mkStConfig false None false None) true 1 None None]
        true [1; 1]%nat,
      Ok [[1 - mean [1; 3]; 3 - mean [1; 3]]; [2; 4]])) /\
  exists sizes outs,
    compute_sizes
      (mkMulti 2 None None
         [st_new (mkStConfig true None false None);
          st_new (mkStConfig false None false None)] false [])
      (length [[1; 3]; [2; 4]]) = Ok sizes /\
    [[1 - mean [1; 3]; 3 - mean [1; 3]]; [2; 4]] = concat outs /\
    Forall2 (fun tB out =>
               snd (st_fit_transform (st_new (config (fst tB))) (snd tB))
               = Ok out)
      (combine [st_new (mkStConfig true None false None);
                st_new (mkStConfig false None false None)]
         (split_rows sizes [[1; 3]; [2; 4]])) outs.
Proof.
  assert (H1 : multi_new 2 None (PerBlock [true; false]) (Shared None)
                 (Shared false) (Shared None) None
    = Ok (mkMulti 2 None None
            [st_new (mkStConfig true None false None);
             st_new (mkStConfig false None false None)] false []))
    by reflexivity.
  assert (H2 : multi_fit_transform
     (mkMulti 2 None None
        [st_new (mkStConfig true None false None);
         st_new (mkStConfig false None false None)] false [])
     [[1; 3]; [2; 4]]
   = (mkMulti 2 None None
        [mkTransformer (mkStConfig true None false None) true 1
           (Some [mean [1; 3]]) None;
         mkTransformer (mkStConfig false None false None) true 1 None None]
        true [1; 1]%nat,
      Ok [[1 - mean [1; 3]; 3 - mean [1; 3]]; [2; 4]])) by reflexivity.
  split; [tauto|].
  exact (multi_blocks_independent _ _ _ _ H2).
Defined.

End PreClaims.

(** ** More on the Euler lifting maps *)
Module EulerMore.
Import Euler EulerFacts.

Lemma split3_none (v : list R) :
  split3 v = None <-> (length v mod 3 <> 0)%nat.
Proof.
  unfold split3. destruct (length v mod 3 =? 0)%nat eqn:E.
  - apply Nat.eqb_eq in E. split; [discriminate|contradiction].
  - apply Nat.eqb_neq in E. tauto.
Qed.

Lemma split3_blocks (v a b c : list R) :
  split3 v = Some (a, b, c) ->
  let m := (length v / 3)%nat in
  v = a ++ b ++ c /\ length a = m /\ length b = m /\ length c = m.
Proof.
  intros H m.
  assert (Hmod : (length v mod 3 = 0)%nat).
  { destruct (Nat.eq_dec (length v mod 3) 0) as [E|E]; auto.
    apply split3_none in E. congruence. }
  destruct (split3_spec v Hmod) as (a' & b' & c' & Hv & _ & La & Lb & Lc & Hs).
  rewrite Hs in H. injection H as <- <- <-. auto.
Qed.

Lemma nth_app3 (a b c : list R) (m i : nat) (d : R) :
  length a = m -> length b = m -> (i < m)%nat ->
  nth i (a ++ b ++ c) d = nth i a d /\
  nth (m + i) (a ++ b ++ c) d = nth i b d /\
  nth (m + m + i) (a ++ b ++ c) d = nth i c d.
Proof.
  intros La Lb Hi. split; [|split].
  - apply app_nth1. lia.
  - rewrite app_nth2 by lia. rewrite app_nth1 by lia. f_equal. lia.
  - rewrite app_nth2 by lia. rewrite app_nth2 by lia. f_equal. lia.
Qed.

Lemma nth_map_lt (f : R -> R) (l : list R) (i : nat) :
  (i < length l)%nat -> nth i (map f l) 0 = f (nth i l 0).
Proof.
  revert i; induction l as [|x t IH]; intros [|i] Hi; simpl in *;
    try lia; auto.
  apply IH. lia.
Qed.

Lemma nth_map2_lt (f : R -> R -> R) (l1 l2 : list R) (i : nat) :
  (i < length l1)%nat -> (i < length l2)%nat ->
  nth i (map2 f l1 l2) 0 = f (nth i l1 0) (nth i l2 0).
Proof.
  revert l2 i; induction l1 as [|x t IH]; intros [|y t2] [|i] H1 H2;
    simpl in *; try lia; auto.
  apply IH; lia.
Qed.

Lemma div_mult (rho u : list R) :
  Forall (fun r => r <> 0) rho -> length u = length rho ->
  map2 Rdiv (map2 Rmult rho u) rho = u.
Proof.
  intros H. revert u.
  induction H as [|r t Hr _ IH]; intros [|y t2] Hl; simpl in *;
    try discriminate; [reflexivity|].
  rewrite IH by lia. f_equal. field. exact Hr.
Qed.

Lemma plus_minus (P X : list R) :
  length X = length P -> map2 Rminus (map2 Rplus P X) X = P.
Proof.
  revert X; induction P as [|x t IH]; intros [|y t2] Hl; simpl in *;
    try discriminate; [reflexivity|].
  rewrite IH by lia. f_equal. ring.
Qed.

Lemma mult_div_gamma (gamma : R) (p : list R) :
  gamma <> 1 ->
  map (fun y => (gamma - 1) * y) (map (fun q => q / (gamma - 1)) p) = p.
Proof.
  intros Hg. induction p as [|x t IH]; simpl; [reflexivity|].
  rewrite IH. f_equal. field. intro H. apply Hg. lra.
Qed.

Lemma inv_nonzero (zeta : list R) :
  Forall (fun z => z <> 0) zeta -> Forall (fun r => r <> 0) (map (fun z => 1 / z) zeta).
Proof.
  induction 1; simpl; constructor; auto.
  unfold Rdiv. rewrite Rmult_1_l. apply Rinv_neq_0_compat. assumption.
Qed.

End EulerMore.

Module EulerExtra.
Import Euler EulerFacts EulerMore.

Ltac len_tac :=
  repeat (rewrite length_map || rewrite map2_length || rewrite length_app);
  lia.
Ltac nth_simp :=
  repeat ((rewrite nth_map2_lt by len_tac) || (rewrite nth_map_lt by len_tac)).

(** [lift(state, gamma)] returns a value exactly when the length of
    [state] is a multiple of 3 ([np.split] raises otherwise), and the
    lifted state then has the length of [state]. *)
Theorem lift_domain_length (v : list R) (gamma : R) :
  (lift v gamma = None <-> (length v mod 3 <> 0)%nat) /\
  (forall q, lift v gamma = Some q -> length q = length v).
Proof.
  unfold lift. rewrite <- split3_none.
  destruct (split3 v) as [[[rho rho_u] rho_e]|] eqn:Hs.
  - split; [split; discriminate|].
    intros q H; injection H as <-.
    destruct (split3_blocks _ _ _ _ Hs) as (Hv & La & Lb & Lc).
    pose proof (f_equal (@length R) Hv) as Lv. rewrite !length_app in Lv.
    rewrite !length_app.
    repeat (rewrite length_map || rewrite map2_length). lia.
  - split; [tauto|]. discriminate.
Qed.

(** [unlift(upzeta, gamma)] returns a value exactly when the length of
    [upzeta] is a multiple of 3, and the result then has the length of
    [upzeta]. *)
Theorem unlift_domain_length (v : list R) (gamma : R) :
  (unlift v gamma = None <-> (length v mod 3 <> 0)%nat) /\
  (forall s, unlift v gamma = Some s -> length s = length v).
Proof.
  unfold unlift. rewrite <- split3_none.
  destruct (split3 v) as [[[u p] zeta]|] eqn:Hs.
  - split; [split; discriminate|].
    intros s H; injection H as <-.
    destruct (split3_blocks _ _ _ _ Hs) as (Hv & La & Lb & Lc).
    pose proof (f_equal (@length R) Hv) as Lv. rewrite !length_app in Lv.
    rewrite !length_app.
    repeat (rewrite length_map || rewrite map2_length). lia.
  - split; [tauto|]. discriminate.
Qed.

(** [lift(unlift(upzeta, gamma), gamma)] gives back [upzeta] when its
    length is a multiple of 3, its [zeta] block has no zero entry and
    [gamma] is not 1: the two maps are inverse in this direction too. *)
Theorem lift_unlift_roundtrip (upzeta : list R) (gamma : R)
    (Hmod : (length upzeta mod 3 = 0)%nat)
    (Hzeta : Forall (fun z => z <> 0)
               (skipn (length upzeta / 3 + length upzeta / 3) upzeta))
    (Hgamma : gamma <> 1) :
  match unlift upzeta gamma with
  | Some state => lift state gamma = Some upzeta
  | None => False
  end.
Proof.
  destruct (split3 upzeta) as [[[u p] zeta]|] eqn:Hs.
  2: { apply split3_none in Hs. contradiction. }
  destruct (split3_blocks _ _ _ _ Hs) as (Hv & Lu & Lp & Lz).
  set (m := (length upzeta / 3)%nat) in *.
  assert (Hz : Forall (fun z => z <> 0) zeta).
  { rewrite Hv in Hzeta.
    replace (m + m)%nat with (length p + length u)%nat in Hzeta by lia.
    rewrite <- skipn_skipn, !skipn_app_exact in Hzeta. exact Hzeta. }
  unfold unlift. rewrite Hs.
  set (rho := map (fun z => 1 / z) zeta).
  assert (Lr : length rho = m) by (unfold rho; len_tac).
  assert (Hr : Forall (fun r => r <> 0) rho) by (apply inv_nonzero, Hz).
  set (X := map2 Rmult (map (fun r => 0.5 * r) rho) (map (fun x => x ^ 2) u)).
  assert (LX : length X = m) by (unfold X; len_tac).
  unfold lift. rewrite split3_app by len_tac.
  rewrite div_mult by (auto; lia). fold X.
  rewrite plus_minus by len_tac.
  rewrite mult_div_gamma by exact Hgamma.
  unfold rho. rewrite inv_inv by exact Hz.
  rewrite Hv. reflexivity.
Qed.

Lemma lift_unlift_roundtrip_witness :
  (Nat.modulo (length [2; 4; 1 / 2]) 3 = 0%nat /\
   Forall (fun z => z <> 0)
     (skipn (Nat.div (length [2; 4; 1 / 2]) 3
             + Nat.div (length [2; 4; 1 / 2]) 3)%nat [2; 4; 1 / 2]) /\
   1.4 <> 1) /\
  match unlift [2; 4; 1 / 2] 1.4 with
  | Some state => lift state 1.4 = Some [2; 4; 1 / 2]
  | None => False
  end.
Proof.
  assert (H1 : Nat.modulo (length [2; 4; 1 / 2]) 3 = 0%nat) by reflexivity.
  assert (H2 : Forall (fun z => z <> 0)
     (skipn (Nat.div (length [2; 4; 1 / 2]) 3
             + Nat.div (length [2; 4; 1 / 2]) 3)%nat [2; 4; 1 / 2])) by (simpl; constructor; [lra|constructor]).
  assert (H3 : 1.4 <> 1) by lra.
  split; [tauto|].
  exact (lift_unlift_roundtrip _ _ H1 H2 H3).
Defined.

(** [lift] works grid point by grid point: for every point [i] of a
    state with [m] points per variable, the entries [i], [m + i] and
    [2m + i] of the lifted state are the lift of the one-point state made
    of the entries [i], [m + i] and [2m + i] of the input. *)
Theorem lift_pointwise (v q : list R) (gamma : R) (i : nat) :
  lift v gamma = Some q -> (i < length v / 3)%nat ->
  let m := (length v / 3)%nat in
  lift [nth i v 0; nth (m + i) v 0; nth (m + m + i) v 0] gamma
  = Some [nth i q 0; nth (m + i) q 0; nth (m + m + i) q 0].
Proof.
  intros H Hi m. fold m in Hi. unfold lift in H.
  destruct (split3 v) as [[[rho rho_u] rho_e]|] eqn:Hs; [|discriminate].
  cbv zeta in H. injection H as <-.
  destruct (split3_blocks _ _ _ _ Hs) as (Hv & La & Lb & Lc). fold m in La, Lb, Lc.
  destruct (nth_app3 rho rho_u rho_e m i 0 La Lb Hi) as (E1 & E2 & E3).
  rewrite Hv, E1, E2, E3.
  set (u := map2 Rdiv rho_u rho).
  assert (Lu : length u = m) by (unfold u; len_tac).
  set (p := map (fun y => (gamma - 1) * y)
              (map2 Rminus rho_e
                 (map2 Rmult (map (fun r => 0.5 * r) rho)
                    (map (fun x => x * (x * 1)) u)))).
  assert (Lp : length p = m) by (unfold p; len_tac).
  destruct (nth_app3 u p (map (fun r => 1 / r) rho) m i 0 Lu Lp Hi)
    as (F1 & F2 & F3).
  rewrite F1, F2, F3. unfold p, u. nth_simp.
  unfold lift, split3. simpl. reflexivity.
Qed.

Lemma lift_pointwise_witness :
  let v := [2; 3; 4; 6; 10; 20] in
  let q := [4 / 2; 6 / 3;
            (1.4 - 1) * (10 - 0.5 * 2 * (4 / 2) ^ 2);
            (1.4 - 1) * (20 - 0.5 * 3 * (6 / 3) ^ 2);
            1 / 2; 1 / 3] in
  (lift v 1.4 = Some q /\ (1 < length v / 3)%nat) /\
  let m := (length v / 3)%nat in
  lift [nth 1 v 0; nth (m + 1) v 0; nth (m + m + 1) v 0] 1.4
  = Some [nth 1 q 0; nth (m + 1) q 0; nth (m + m + 1) q 0].
Proof.
  intros v q.
  assert (H1 : lift v 1.4 = Some q) by reflexivity.
  assert (H2 : (1 < length v / 3)%nat) by (simpl; lia).
  split; [tauto|].
  exact (lift_pointwise _ _ _ 1 H1 H2).
Defined.

(** [unlift] works grid point by grid point, as [lift] does. *)
Theorem unlift_pointwise (v s : list R) (gamma : R) (i : nat) :
  unlift v gamma = Some s -> (i < length v / 3)%nat ->
  let m := (length v / 3)%nat in
  unlift [nth i v 0; nth (m + i) v 0; nth (m + m + i) v 0] gamma
  = Some [nth i s 0; nth (m + i) s 0; nth (m + m + i) s 0].
Proof.
  intros H Hi m. fold m in Hi. unfold unlift in H.
  destruct (split3 v) as [[[u p] zeta]|] eqn:Hs; [|discriminate].
  cbv zeta in H. injection H as <-.
  destruct (split3_blocks _ _ _ _ Hs) as (Hv & La & Lb & Lc). fold m in La, Lb, Lc.
  destruct (nth_app3 u p zeta m i 0 La Lb Hi) as (E1 & E2 & E3).
  rewrite Hv, E1, E2, E3.
  set (rho := map (fun z => 1 / z) zeta).
  assert (Lr : length rho = m) by (unfold rho; len_tac).
  set (rho_u := map2 Rmult rho u).
  assert (Lu : length rho_u = m) by (unfold rho_u; len_tac).
  destruct (nth_app3 rho rho_u
              (map2 Rplus (map (fun q => q / (gamma - 1)) p)
                 (map2 Rmult (map (fun r => 0.5 * r) rho)
                    (map (fun x => x * (x * 1)) u))) m i 0 Lr Lu Hi)
    as (F1 & F2 & F3).
  rewrite F1, F2, F3. unfold rho_u, rho. nth_simp.
  unfold unlift, split3. simpl. reflexivity.
Qed.

Lemma unlift_pointwise_witness :
  let v := [1; 5; 2; 7; 4; 8] in
  let w := [1 / 4; 1 / 8; 1 / 4 * 1; 1 / 8 * 5;
            2 / (1.4 - 1) + 0.5 * (1 / 4) * 1 ^ 2;
            7 / (1.4 - 1) + 0.5 * (1 / 8) * 5 ^ 2] in
  (unlift v 1.4 = Some w /\ (1 < length v / 3)%nat) /\
  let m := (length v / 3)%nat in
  unlift [nth 1 v 0; nth (m + 1) v 0; nth (m + m + 1) v 0] 1.4
  = Some [nth 1 w 0; nth (m + 1) w 0; nth (m + m + 1) w 0].
Proof.
  intros v w.
  assert (H1 : unlift v 1.4 = Some w) by reflexivity.
  assert (H2 : (1 < length v / 3)%nat) by (simpl; lia).
  split; [tauto|].
  exact (unlift_pointwise _ _ _ 1 H1 H2).
Defined.

End EulerExtra.
